(** * Ticket auxiliary data of the probabilistic micropayment layer

  A shallow embedding of [pm/auxdata.go]: [RoundAuxDataCreator.Create]
  and [RoundAuxDataValidator.Validate] over the [RoundsManager]
  interface, together with the pieces of [math/big], [bytes] and
  go-ethereum's [common] package that the two methods call. *)

From Stdlib Require Import String Strings.Byte.
From Stdlib Require Import ZArith NArith List Bool Lia.
Import ListNotations.
Local Open Scope list_scope.

(** ** Bytes *)

Module GoBytes.

Local Open Scope N_scope.

(** The value of a byte, [0 .. 255]. *)
Definition val (b : Byte.byte) : N := Byte.to_N b.

(** Go's conversion [byte(n)]: the low eight bits of [n]. *)
Definition of_N (n : N) : Byte.byte :=
  match Byte.of_N (n mod 256) with
  | Some b => b
  | None => Byte.x00
  end.

(** [bytes.Equal(a, b)]: same length and the same bytes. *)
Fixpoint Equal (a b : list Byte.byte) : bool :=
  match a, b with
  | [], [] => true
  | x :: a', y :: b' => Byte.eqb x y && Equal a' b'
  | _, _ => false
  end.

(** [make([]byte, n)]: [n] zero bytes. *)
Definition make (n : nat) : list Byte.byte := repeat Byte.x00 n.

End GoBytes.

(** ** [math/big]: the part of [big.Int] the package uses

  A [big.Int] is a sign and a magnitude of arbitrary size, hence [Z]. *)

Module big.

Local Open Scope N_scope.

(** [nat.bytes] writes the magnitude into a buffer, most significant
    byte first: byte [i] of a [k]-byte buffer is digit [k-1-i] in
    base 256. *)
Fixpoint be_bytes (k : nat) (n : N) : list Byte.byte :=
  match k with
  | O => []
  | S k' => GoBytes.of_N (n / 256 ^ N.of_nat k') :: be_bytes k' n
  end.

(** [nat.bytes] then skips the leading zero bytes of the buffer. *)
Fixpoint strip_zeros (l : list Byte.byte) : list Byte.byte :=
  match l with
  | [] => []
  | b :: l' => if Byte.eqb b Byte.x00 then strip_zeros l' else l
  end.

(** [x.Bytes()]: the absolute value of [x] as a big-endian byte slice
    without leading zeros (empty for 0).  The buffer Go allocates holds
    all the words of the magnitude; any buffer that holds the whole
    magnitude gives the same slice, here one byte per bit. *)
Definition Bytes (x : Z) : list Byte.byte :=
  let n := Z.abs_N x in
  strip_zeros (be_bytes (N.size_nat n) n).

(** The unsigned big-endian value of a byte slice, from accumulator
    [acc]. *)
Definition be_value (acc : N) (buf : list Byte.byte) : N :=
  fold_left (fun a b => a * 256 + GoBytes.val b) buf acc.

(** [new(big.Int).SetBytes(buf)]: [buf] read as a big-endian unsigned
    integer. *)
Definition SetBytes (buf : list Byte.byte) : Z := Z.of_N (be_value 0 buf).

(** [x.Cmp(y)]: -1, 0 or +1. *)
Definition Cmp (x y : Z) : Z :=
  match Z.compare x y with
  | Lt => (-1)%Z
  | Eq => 0%Z
  | Gt => 1%Z
  end.

End big.

(** ** go-ethereum [common] *)

Module ethcommon.

(** [LeftPadBytes(slice, l)]: [slice] itself when it already has [l]
    bytes or more, otherwise [l] bytes ending with [slice]. *)
Definition LeftPadBytes (slice : list Byte.byte) (l : nat) : list Byte.byte :=
  if (l <=? length slice)%nat then slice
  else GoBytes.make (l - length slice) ++ slice.

End ethcommon.

(** ** Package [pm] *)

(** Go's [error] values, as [errors.New] builds them: an error carries its
    message, and [Error()] returns it.  A nil [error] is [None]. *)
Inductive error : Type :=
| errors_New (msg : string).

Definition Error (e : error) : string :=
  match e with errors_New msg => msg end.

Definition errInvalidAuxDataLength : error :=
  errors_New "invalid ticket aux data length".
Definition errInvalidCreationRound : error :=
  errors_New "invalid ticket creation round".
Definition errInvalidCreationRoundBlockHash : error :=
  errors_New "invalid ticket creation round block hash".

(** The array type [[32]byte]; [slice h] is [h[:]]. *)
Record array32 : Type := mkArray32 {
  slice : list Byte.byte;
  slice_len : length slice = 32
}.

(** A [*big.Int]: [None] is the nil pointer. *)
Definition bigInt : Type := option Z.

(** The interface [RoundsManager].  An implementation may change state
    when it is called (the test double consumes its scripted answers), so
    each method takes the implementation's state and returns the next one
    with Go's pair of results. *)
Class RoundsManager (M : Type) : Type := {
  LastInitializedRound : M -> M * (bigInt * option error);
  BlockHashForRound : M -> bigInt -> M * (array32 * option error)
}.

(** How a call ends: it returns, or it panics (here only on a nil
    [*big.Int] dereference). *)
Inductive outcome (A : Type) : Type :=
| Returns (a : A)
| Panics.
Arguments Returns {A} a.
Arguments Panics {A}.

Section Pm.

Context {M : Type} `{RoundsManager M}.

(** [RoundAuxDataCreator.Create].  The creator's only field is its
    [roundsManager], which stands for the receiver here; the nil slice is
    the empty list. *)
Definition Create (c : M) : M * outcome (list Byte.byte * option error) :=
  let '(c1, (round, err)) := LastInitializedRound c in
  match err with
  | Some e => (c1, Returns ([], Some e))
  | None =>
    let '(c2, (blkHash, err)) := BlockHashForRound c1 round in
    match err with
    | Some e => (c2, Returns ([], Some e))
    | None =>
      match round with
      | None => (c2, Panics)
      | Some r =>
        (c2, Returns (ethcommon.LeftPadBytes (big.Bytes r) 32 ++ slice blkHash,
                      None))
      end
    end
  end.

(** [RoundAuxDataValidator.Validate], the receiver again being its
    [roundsManager]. *)
Definition Validate (v : M) (auxData : list Byte.byte)
  : M * outcome (option error) :=
  if negb (length auxData =? 64)%nat then
    (v, Returns (Some errInvalidAuxDataLength))
  else
    let creationRound := big.SetBytes (firstn 32 auxData) in
    let creationRoundBlkHash := skipn 32 auxData in
    let '(v1, (round, err)) := LastInitializedRound v in
    match err with
    | Some e => (v1, Returns (Some e))
    | None =>
      let '(v2, (blkHash, err)) := BlockHashForRound v1 round in
      match err with
      | Some e => (v2, Returns (Some e))
      | None =>
        match round with
        | None => (v2, Panics)
        | Some r =>
          if negb (big.Cmp creationRound r =? 0)%Z then
            (v2, Returns (Some errInvalidCreationRound))
          else if negb (GoBytes.Equal creationRoundBlkHash (slice blkHash)) then
            (v2, Returns (Some errInvalidCreationRoundBlockHash))
          else
            (v2, Returns None)
        end
      end
    end.

End Pm.

(** ** Implementations of [RoundsManager] *)

(** A rounds manager that answers every call the same way, like the test
    double once its answers are set. *)
Record staticRoundsManager : Type := {
  static_round : bigInt * option error;
  static_hash : array32 * option error
}.

#[export] Instance staticRoundsManager_RoundsManager
  : RoundsManager staticRoundsManager := {
  LastInitializedRound m := (m, static_round m);
  BlockHashForRound m _ := (m, static_hash m)
}.

(** A rounds manager that records the calls made to it, in order, before
    passing them on: the call list of a mock. *)
Inductive Call : Type :=
| Call_LastInitializedRound
| Call_BlockHashForRound (round : bigInt).

Record Recorder (M : Type) : Type := {
  target : M;
  Calls : list Call
}.
Arguments target {M} _.
Arguments Calls {M} _.

#[export] Instance Recorder_RoundsManager {M : Type} `{RoundsManager M}
  : RoundsManager (Recorder M) := {
  LastInitializedRound m :=
    let '(t, res) := LastInitializedRound (target m) in
    ({| target := t; Calls := Calls m ++ [Call_LastInitializedRound] |}, res);
  BlockHashForRound m round :=
    let '(t, res) := BlockHashForRound (target m) round in
    ({| target := t; Calls := Calls m ++ [Call_BlockHashForRound round] |}, res)
}.

(** The block hash and the rounds of the package's tests. *)
Definition testBlkHash : array32 :=
  Eval cbv in
  mkArray32
    [x76; x24; x77; x8d; xed; xc7; x5f; x8b; x32; x2b; x9f; xa1; x63; x2a; x61; x0d;
     x40; xb8; x5e; x10; x6c; x7d; x9b; xf0; xe7; x43; xa9; xce; x29; x1b; x9c; x6f]
    eq_refl.

Definition emptyBlkHash : array32 := mkArray32 (GoBytes.make 32) eq_refl.

Definition testRounds (round : Z) (blkHash : array32) : staticRoundsManager :=
  {| static_round := (Some round, None); static_hash := (blkHash, None) |}.

Definition testAuxData : list Byte.byte :=
  GoBytes.make 31 ++ [x05] ++ slice testBlkHash.

(** The test double's failing answers: a nil round with an error, and the
    zero array with an error. *)
Definition failingRound (e : error) : staticRoundsManager :=
  {| static_round := (None, Some e); static_hash := (emptyBlkHash, None) |}.

Definition failingBlockHash (round : Z) (e : error) : staticRoundsManager :=
  {| static_round := (Some round, None); static_hash := (emptyBlkHash, Some e) |}.

(** ** Vocabulary of the statements *)

(** The round field of the wire format: 32 bytes, byte [i] being digit
    [31 - i] of the round in base 256 (unsigned, big-endian, zero-padded on
    the left). *)
Definition BigEndian32 (round : Z) : list Byte.byte :=
  map (fun i => GoBytes.of_N (Z.to_N round / 256 ^ N.of_nat (31 - i))) (seq 0 32).

(** The length in bytes of the minimal big-endian representation of a
    round: the number of base-256 digits of its magnitude, none for 0. *)
Definition bytelen (round : Z) : nat :=
  if (round =? 0)%Z then 0 else S (Z.to_nat (Z.log2 (Z.abs round) / 8)).

(** The minimal big-endian representation of a round: its [bytelen]
    base-256 digits, most significant first, byte [i] being digit
    [bytelen - 1 - i]. *)
Definition BigEndianMinimal (round : Z) : list Byte.byte :=
  map (fun i => GoBytes.of_N
                  (Z.abs_N round / 256 ^ N.of_nat (bytelen round - 1 - i)))
      (seq 0 (bytelen round)).

Section Answers.

Context {M : Type} `{RoundsManager M}.

(** Both queries succeed: the current round is [r], its block hash is [h],
    and the rounds manager is left in state [m']. *)
Definition OracleAnswers (m : M) (r : Z) (h : array32) (m' : M) : Prop :=
  exists m1,
    LastInitializedRound m = (m1, (Some r, None)) /\
    BlockHashForRound m1 (Some r) = (m', (h, None)).

(** One of the two queries returns the error [e], leaving the rounds
    manager in state [m']: the first one, or the second after the first
    succeeded. *)
Definition OracleFails (m : M) (e : error) (m' : M) : Prop :=
  (exists round, LastInitializedRound m = (m', (round, Some e))) \/
  (exists m1 round h,
     LastInitializedRound m = (m1, (round, None)) /\
     BlockHashForRound m1 round = (m', (h, Some e))).

(** What the rounds manager answers to the queries of one run: the answer
    to [LastInitializedRound] and, when that one carries no error, the
    answer to [BlockHashForRound] for the round it gave. *)
Definition responses (m : M)
  : (bigInt * option error) * option (array32 * option error) :=
  let '(m1, (round, err)) := LastInitializedRound m in
  match err with
  | Some _ => ((round, err), None)
  | None => ((round, err), Some (snd (BlockHashForRound m1 round)))
  end.

End Answers.

(** ** Checks against the package's tests *)

Example Bytes_5 : big.Bytes 5 = [Byte.x05].
Proof. reflexivity. Qed.

Example Bytes_0 : big.Bytes 0 = [].
Proof. reflexivity. Qed.

Example Bytes_258 : big.Bytes 258 = [Byte.x01; Byte.x02].
Proof. reflexivity. Qed.

Example Bytes_neg : big.Bytes (-258) = [Byte.x01; Byte.x02].
Proof. reflexivity. Qed.

Example SetBytes_258 : big.SetBytes [Byte.x00; Byte.x01; Byte.x02] = 258%Z.
Proof. reflexivity. Qed.

Example Bytes_big : length (big.Bytes (2 ^ 256)) = 33%nat.
Proof. vm_compute. reflexivity. Qed.

Example bytelen_small :
  bytelen 0 = 0 /\ bytelen 255 = 1 /\ bytelen 256 = 2 /\ bytelen (-256) = 2.
Proof. repeat split. Qed.

Example bytelen_boundary :
  bytelen (2 ^ 256 - 1) = 32 /\ bytelen (2 ^ 256) = 33.
Proof. split; vm_compute; reflexivity. Qed.

Example TestCreate_normal :
  snd (Create (testRounds 5 testBlkHash)) = Returns (testAuxData, None).
Proof. reflexivity. Qed.

Example TestCreate_zero_empty :
  snd (Create (testRounds 0 emptyBlkHash)) = Returns (GoBytes.make 64, None).
Proof. reflexivity. Qed.

Example TestValidate_empty :
  snd (Validate (testRounds 5 testBlkHash) []) =
  Returns (Some errInvalidAuxDataLength).
Proof. reflexivity. Qed.

Example TestValidate_round :
  snd (Validate (testRounds 2 testBlkHash) testAuxData) =
  Returns (Some errInvalidCreationRound).
Proof. reflexivity. Qed.

Example TestValidate_hash :
  snd (Validate (testRounds 5 emptyBlkHash) testAuxData) =
  Returns (Some errInvalidCreationRoundBlockHash).
Proof. reflexivity. Qed.

Example TestValidate_valid :
  snd (Validate (testRounds 5 testBlkHash) testAuxData) = Returns None.
Proof. reflexivity. Qed.

Example TestCreate_calls :
  Calls (fst (Create {| target := testRounds 5 testBlkHash; Calls := [] |})) =
  [Call_LastInitializedRound; Call_BlockHashForRound (Some 5%Z)].
Proof. reflexivity. Qed.
(** ** Bytes and big-endian values *)

Section ByteFacts.
Local Open Scope N_scope.

Lemma val_lt (b : Byte.byte) : GoBytes.val b < 256.
Proof. unfold GoBytes.val. pose proof (Byte.to_N_bounded b). lia. Qed.

Lemma val_of_N (n : N) : GoBytes.val (GoBytes.of_N n) = n mod 256.
Proof.
  unfold GoBytes.val, GoBytes.of_N.
  destruct (Byte.of_N (n mod 256)) as [b|] eqn:E.
  - now apply Byte.to_of_N.
  - apply Byte.of_N_None_iff in E.
    pose proof (N.mod_lt n 256). lia.
Qed.

Lemma val_inj (a b : Byte.byte) : GoBytes.val a = GoBytes.val b -> a = b.
Proof.
  unfold GoBytes.val. intros E.
  pose proof (Byte.of_to_N a) as Ha. pose proof (Byte.of_to_N b) as Hb.
  rewrite E in Ha. congruence.
Qed.

Lemma val_x00 (b : Byte.byte) : Byte.eqb b x00 = true <-> GoBytes.val b = 0.
Proof.
  split.
  - intros E. apply Byte.byte_dec_bl in E. now subst.
  - intros E. apply Byte.byte_dec_lb. apply val_inj. exact E.
Qed.

Lemma pow256_succ (k : nat) : 256 ^ N.of_nat (S k) = 256 * 256 ^ N.of_nat k.
Proof. rewrite Nat2N.inj_succ. apply N.pow_succ_r'. Qed.

Lemma pow256_pos (k : nat) : 0 < 256 ^ N.of_nat k.
Proof. apply N.neq_0_lt_0. apply N.pow_nonzero. discriminate. Qed.

Lemma be_value_cons (acc : N) (b : Byte.byte) (l : list Byte.byte) :
  big.be_value acc (b :: l) = big.be_value (acc * 256 + GoBytes.val b) l.
Proof. reflexivity. Qed.

Lemma be_value_acc (l : list Byte.byte) : forall acc,
  big.be_value acc l = acc * 256 ^ N.of_nat (length l) + big.be_value 0 l.
Proof.
  induction l as [|b l IH]; intros acc.
  - cbn. lia.
  - rewrite !be_value_cons. rewrite (IH (acc * 256 + _)), (IH (0 * 256 + _)).
    cbn [length]. rewrite pow256_succ. lia.
Qed.

Lemma be_value_bound (l : list Byte.byte) :
  big.be_value 0 l < 256 ^ N.of_nat (length l).
Proof.
  induction l as [|b l IH].
  - cbn. lia.
  - rewrite be_value_cons, be_value_acc. cbn [length]. rewrite pow256_succ.
    pose proof (val_lt b). nia.
Qed.

Lemma be_value_be_bytes (k : nat) (n : N) : forall acc,
  big.be_value acc (big.be_bytes k n) = acc * 256 ^ N.of_nat k + n mod 256 ^ N.of_nat k.
Proof.
  induction k as [|k IH]; intros acc.
  - cbn. rewrite N.mod_1_r. lia.
  - cbn [big.be_bytes]. rewrite be_value_cons, IH, val_of_N, pow256_succ.
    rewrite (N.mul_comm 256 (256 ^ _)).
    rewrite (N.Div0.mod_mul_r n (256 ^ N.of_nat k) 256). lia.
Qed.

Lemma be_bytes_length (k : nat) (n : N) : length (big.be_bytes k n) = k.
Proof. induction k; cbn; congruence. Qed.

End ByteFacts.

Section BigFacts.
Local Open Scope N_scope.

Lemma strip_zeros_value (l : list Byte.byte) :
  big.be_value 0 (big.strip_zeros l) = big.be_value 0 l.
Proof.
  induction l as [|b l IH]; [reflexivity|].
  cbn [big.strip_zeros]. destruct (Byte.eqb b x00) eqn:E; [|reflexivity].
  apply val_x00 in E. rewrite be_value_cons, E. exact IH.
Qed.

Lemma strip_zeros_length (l : list Byte.byte) :
  (length (big.strip_zeros l) <= length l)%nat.
Proof.
  induction l as [|b l IH]; cbn; [lia|].
  destruct (Byte.eqb b x00); cbn; lia.
Qed.

(** A stripped slice is minimal: its first byte, if any, is not zero. *)
Lemma strip_zeros_minimal (l : list Byte.byte) :
  big.strip_zeros l <> [] ->
  256 ^ N.of_nat (pred (length (big.strip_zeros l))) <=
  big.be_value 0 (big.strip_zeros l).
Proof.
  induction l as [|b l IH]; cbn [big.strip_zeros]; [congruence|].
  destruct (Byte.eqb b x00) eqn:E; [exact IH|]. intros _.
  assert (GoBytes.val b <> 0) as Hb.
  { intros Hz. apply val_x00 in Hz. congruence. }
  rewrite be_value_cons, be_value_acc. cbn [length pred].
  pose proof (pow256_pos (length l)). nia.
Qed.

Lemma size_nat_bound (n : N) : n < 256 ^ N.of_nat (N.size_nat n).
Proof.
  destruct n as [|p]; [cbn; lia|]. cbn [N.size_nat].
  induction p as [p IH|p IH|]; cbn [Pos.size_nat]; rewrite ?pow256_succ; lia.
Qed.

Lemma be_value_Bytes (x : Z) : big.be_value 0 (big.Bytes x) = Z.abs_N x.
Proof.
  unfold big.Bytes. rewrite strip_zeros_value, be_value_be_bytes.
  rewrite N.mod_small by apply size_nat_bound. lia.
Qed.

Lemma SetBytes_Bytes (x : Z) : big.SetBytes (big.Bytes x) = Z.abs x.
Proof. unfold big.SetBytes. rewrite be_value_Bytes. apply N2Z.inj_abs_N. Qed.

Lemma pow256_le_lt (j k : nat) :
  256 ^ N.of_nat j < 256 ^ N.of_nat k -> (j < k)%nat.
Proof.
  intros Hlt. apply N.pow_lt_mono_r_iff in Hlt; lia.
Qed.

(** [Bytes] is the shortest big-endian slice of the magnitude. *)
Lemma Bytes_minimal (x : Z) :
  x <> 0%Z ->
  256 ^ N.of_nat (pred (length (big.Bytes x))) <= Z.abs_N x.
Proof.
  intros Hx. pose proof (be_value_Bytes x) as V.
  assert (big.Bytes x <> []) as Hne.
  { intros E. rewrite E in V. cbn in V. lia. }
  rewrite <- V. exact (strip_zeros_minimal _ Hne).
Qed.

Lemma Bytes_bound (x : Z) :
  Z.abs_N x < 256 ^ N.of_nat (length (big.Bytes x)).
Proof. rewrite <- (be_value_Bytes x). apply be_value_bound. Qed.

Lemma Bytes_length_le (x : Z) (k : nat) :
  Z.abs_N x < 256 ^ N.of_nat k -> (length (big.Bytes x) <= k)%nat.
Proof.
  intros Hlt. destruct (Z.eq_dec x 0) as [->|Hx]; [cbn; lia|].
  pose proof (Bytes_minimal x Hx) as Hmin.
  assert (pred (length (big.Bytes x)) < k)%nat; [|lia].
  apply pow256_le_lt. lia.
Qed.

Lemma Bytes_length_gt (x : Z) (k : nat) :
  256 ^ N.of_nat k <= Z.abs_N x -> (k < length (big.Bytes x))%nat.
Proof.
  intros Hle. apply pow256_le_lt. pose proof (Bytes_bound x). lia.
Qed.

(** Big-endian slices of one length with one value are equal. *)
Lemma be_value_inj (a : list Byte.byte) : forall b,
  length a = length b -> big.be_value 0 a = big.be_value 0 b -> a = b.
Proof.
  induction a as [|x a IH]; intros [|y b] Hlen Hval; try discriminate; [reflexivity|].
  cbn [length] in Hlen. injection Hlen as Hlen.
  rewrite !be_value_cons, (be_value_acc a), (be_value_acc b), <- Hlen in Hval.
  pose proof (be_value_bound a) as Ba. pose proof (be_value_bound b) as Bb.
  rewrite <- Hlen in Bb.
  destruct (N.div_mod_unique (256 ^ N.of_nat (length a))
              (GoBytes.val x) (GoBytes.val y) _ _ Ba Bb) as [Hx Hv]; [lia|].
  f_equal; [now apply val_inj | now apply IH].
Qed.

Lemma be_value_make (n : nat) (l : list Byte.byte) :
  big.be_value 0 (GoBytes.make n ++ l) = big.be_value 0 l.
Proof. induction n as [|n IH]; [reflexivity|exact IH]. Qed.

Lemma LeftPadBytes_value (l : list Byte.byte) (k : nat) :
  big.be_value 0 (ethcommon.LeftPadBytes l k) = big.be_value 0 l.
Proof.
  unfold ethcommon.LeftPadBytes. destruct (k <=? length l)%nat; [reflexivity|].
  apply be_value_make.
Qed.

Lemma LeftPadBytes_length (l : list Byte.byte) (k : nat) :
  length (ethcommon.LeftPadBytes l k) = Nat.max k (length l).
Proof.
  unfold ethcommon.LeftPadBytes. destruct (Nat.leb_spec k (length l)); [lia|].
  unfold GoBytes.make. rewrite length_app, repeat_length. lia.
Qed.

(** Padding the minimal slice of a magnitude below [256^k] to [k] bytes
    gives its [k]-byte big-endian encoding. *)
Lemma LeftPadBytes_Bytes (x : Z) (k : nat) :
  Z.abs_N x < 256 ^ N.of_nat k ->
  ethcommon.LeftPadBytes (big.Bytes x) k = big.be_bytes k (Z.abs_N x).
Proof.
  intros Hlt. apply be_value_inj.
  - rewrite LeftPadBytes_length, be_bytes_length.
    pose proof (Bytes_length_le x k Hlt). lia.
  - rewrite LeftPadBytes_value, be_value_Bytes, be_value_be_bytes.
    rewrite N.mod_small by exact Hlt. lia.
Qed.

Lemma Equal_eq (a : list Byte.byte) : forall b,
  GoBytes.Equal a b = true <-> a = b.
Proof.
  induction a as [|x a IH]; intros [|y b]; cbn; try (split; congruence).
  rewrite andb_true_iff, IH. split.
  - intros [Hx ->]. apply Byte.byte_dec_bl in Hx. now subst.
  - intros E. injection E as -> ->. split; [now apply Byte.byte_dec_lb|reflexivity].
Qed.

Lemma Cmp_eq (x y : Z) : big.Cmp x y = 0%Z <-> x = y.
Proof.
  unfold big.Cmp. destruct (Z.compare_spec x y); split; intros; try lia; try discriminate.
Qed.

End BigFacts.

(** ** The encoding of a round *)

Section Encoding.
Local Open Scope Z_scope.

Lemma BigEndian32_be_bytes (r : Z) : BigEndian32 r = big.be_bytes 32 (Z.to_N r).
Proof. reflexivity. Qed.

Lemma in_range_abs (r : Z) :
  0 <= r < 2 ^ 256 -> (Z.abs_N r < 256 ^ N.of_nat 32)%N.
Proof.
  intros Hr. change (256 ^ N.of_nat 32)%N with (Z.to_N (2 ^ 256)). lia.
Qed.

Lemma LeftPadBytes_round (r : Z) :
  0 <= r < 2 ^ 256 ->
  ethcommon.LeftPadBytes (big.Bytes r) 32 = BigEndian32 r.
Proof.
  intros Hr. rewrite BigEndian32_be_bytes, LeftPadBytes_Bytes by now apply in_range_abs.
  f_equal. lia.
Qed.

Lemma BigEndian32_length (r : Z) : length (BigEndian32 r) = 32%nat.
Proof. reflexivity. Qed.

Lemma SetBytes_BigEndian32 (r : Z) :
  0 <= r < 2 ^ 256 -> big.SetBytes (BigEndian32 r) = r.
Proof.
  intros Hr. rewrite <- LeftPadBytes_round by exact Hr.
  unfold big.SetBytes. rewrite LeftPadBytes_value, be_value_Bytes. lia.
Qed.

Lemma firstn_round (r : Z) (l : list Byte.byte) :
  firstn 32 (BigEndian32 r ++ l) = BigEndian32 r.
Proof. reflexivity. Qed.

Lemma skipn_round (r : Z) (l : list Byte.byte) :
  skipn 32 (BigEndian32 r ++ l) = l.
Proof. reflexivity. Qed.

End Encoding.

(** ** The two methods, query by query *)

Section Steps.

Context {M : Type} `{RoundsManager M}.

Lemma Create_answers (c c' : M) (r : Z) (h : array32) :
  OracleAnswers c r h c' ->
  Create c =
  (c', Returns (ethcommon.LeftPadBytes (big.Bytes r) 32 ++ slice h, None)).
Proof.
  intros (c1 & Hround & Hhash). unfold Create.
  rewrite Hround, Hhash. reflexivity.
Qed.

Lemma Create_fails (c c' : M) (e : error) :
  OracleFails c e c' -> Create c = (c', Returns ([], Some e)).
Proof.
  unfold Create.
  intros [(round & Hround) | (c1 & round & h & Hround & Hhash)].
  - rewrite Hround. reflexivity.
  - rewrite Hround, Hhash. reflexivity.
Qed.

Lemma Validate_invalid (v : M) (auxData : list Byte.byte) :
  length auxData <> 64 ->
  Validate v auxData = (v, Returns (Some errInvalidAuxDataLength)).
Proof.
  intros Hlen. unfold Validate.
  apply Nat.eqb_neq in Hlen. rewrite Hlen. reflexivity.
Qed.

Lemma Validate_fails (v v' : M) (e : error) (auxData : list Byte.byte) :
  length auxData = 64 ->
  OracleFails v e v' -> Validate v auxData = (v', Returns (Some e)).
Proof.
  intros Hlen. unfold Validate.
  apply Nat.eqb_eq in Hlen. rewrite Hlen. cbn [negb].
  intros [(round & Hround) | (v1 & round & h & Hround & Hhash)].
  - rewrite Hround. reflexivity.
  - rewrite Hround, Hhash. reflexivity.
Qed.

Lemma Validate_answers (v v' : M) (r : Z) (h : array32)
      (auxData : list Byte.byte) :
  length auxData = 64 ->
  OracleAnswers v r h v' ->
  Validate v auxData =
  (v', Returns
         (if negb (big.Cmp (big.SetBytes (firstn 32 auxData)) r =? 0)%Z
          then Some errInvalidCreationRound
          else if negb (GoBytes.Equal (skipn 32 auxData) (slice h))
               then Some errInvalidCreationRoundBlockHash
               else None)).
Proof.
  intros Hlen (v1 & Hround & Hhash). unfold Validate.
  apply Nat.eqb_eq in Hlen. rewrite Hlen, Hround, Hhash. cbn [negb].
  destruct (negb (big.Cmp _ r =? 0)%Z); [reflexivity|].
  destruct (negb (GoBytes.Equal _ _)); reflexivity.
Qed.

Lemma Validate_round_mismatch (v v' : M) (r : Z) (h : array32)
      (auxData : list Byte.byte) :
  length auxData = 64 ->
  OracleAnswers v r h v' ->
  big.SetBytes (firstn 32 auxData) <> r ->
  Validate v auxData = (v', Returns (Some errInvalidCreationRound)).
Proof.
  intros Hlen Hans Hneq. rewrite (Validate_answers v v' r h auxData Hlen Hans).
  destruct (Z.eqb_spec (big.Cmp (big.SetBytes (firstn 32 auxData)) r) 0) as [E|E].
  - apply -> Cmp_eq in E. contradiction.
  - reflexivity.
Qed.

Lemma Validate_hash_mismatch (v v' : M) (r : Z) (h : array32)
      (auxData : list Byte.byte) :
  length auxData = 64 ->
  OracleAnswers v r h v' ->
  big.SetBytes (firstn 32 auxData) = r ->
  skipn 32 auxData <> slice h ->
  Validate v auxData = (v', Returns (Some errInvalidCreationRoundBlockHash)).
Proof.
  intros Hlen Hans Hr Hneq. rewrite (Validate_answers v v' r h auxData Hlen Hans).
  apply <- Cmp_eq in Hr. rewrite Hr. cbn.
  destruct (GoBytes.Equal _ _) eqn:E; [|reflexivity].
  apply -> Equal_eq in E. contradiction.
Qed.

Lemma Validate_match (v v' : M) (r : Z) (h : array32)
      (auxData : list Byte.byte) :
  length auxData = 64 ->
  OracleAnswers v r h v' ->
  big.SetBytes (firstn 32 auxData) = r ->
  skipn 32 auxData = slice h ->
  Validate v auxData = (v', Returns None).
Proof.
  intros Hlen Hans Hr Hh. rewrite (Validate_answers v v' r h auxData Hlen Hans).
  apply <- Cmp_eq in Hr. apply <- Equal_eq in Hh. rewrite Hr, Hh. reflexivity.
Qed.

(** The recorder answers as its target does and appends the two calls. *)
Lemma Recorder_answers (m m' : M) (r : Z) (h : array32) (calls : list Call) :
  OracleAnswers m r h m' ->
  OracleAnswers {| target := m; Calls := calls |} r h
    {| target := m';
       Calls := calls ++ [Call_LastInitializedRound;
                          Call_BlockHashForRound (Some r)] |}.
Proof.
  intros (m1 & Hround & Hhash).
  exists {| target := m1; Calls := calls ++ [Call_LastInitializedRound] |}.
  cbn. rewrite Hround, Hhash, <- app_assoc. split; reflexivity.
Qed.

End Steps.

(** ** Properties of [Create] and [Validate] *)

Section Properties.

Context {M : Type} `{RoundsManager M}.

(** C2. For a round [0 <= r < 2^256] and a block hash [h] that the rounds
    manager returns without error, [Create] returns a nil error and the 64
    bytes made of the 32-byte big-endian encoding of [r] followed by the
    32 bytes of [h]; the encoding decodes to [r]; round 0 encodes as 32
    zero bytes, and round 0 with the zero hash gives 64 zero bytes. *)
Theorem Create_wire_format (c c' : M) (r : Z) (h : array32) :
  (0 <= r < 2 ^ 256)%Z ->
  OracleAnswers c r h c' ->
  Create c = (c', Returns (BigEndian32 r ++ slice h, None)) /\
  length (BigEndian32 r ++ slice h) = 64 /\
  big.SetBytes (BigEndian32 r) = r /\
  (r = 0%Z -> BigEndian32 r = repeat x00 32) /\
  (r = 0%Z -> slice h = repeat x00 32 ->
   BigEndian32 r ++ slice h = repeat x00 64).
Proof.
  intros Hr Hans. repeat split.
  - rewrite (Create_answers c c' r h Hans), LeftPadBytes_round by exact Hr. reflexivity.
  - rewrite length_app, BigEndian32_length, (slice_len h). reflexivity.
  - now apply SetBytes_BigEndian32.
  - intros ->. reflexivity.
  - intros -> ->. reflexivity.
Qed.

(** C3. Whatever its content, a byte sequence whose length is not 64 makes
    [Validate] return the invalid-length error with the rounds manager
    untouched: a recorder of the calls records none. *)
Theorem Validate_rejects_length (v : M) (calls : list Call)
        (auxData : list Byte.byte) :
  length auxData <> 64 ->
  Validate v auxData = (v, Returns (Some errInvalidAuxDataLength)) /\
  Validate {| target := v; Calls := calls |} auxData =
  ({| target := v; Calls := calls |}, Returns (Some errInvalidAuxDataLength)).
Proof.
  intros Hlen. split; now apply Validate_invalid.
Qed.

(** C4. When [LastInitializedRound] or [BlockHashForRound] returns an
    error [e], [Create] returns the nil slice with [e] itself, and
    [Validate] on any 64-byte input returns [e] itself. *)
Theorem oracle_error_verbatim (m m' : M) (e : error) :
  OracleFails m e m' ->
  Create m = (m', Returns ([], Some e)) /\
  forall auxData, length auxData = 64 ->
                  Validate m auxData = (m', Returns (Some e)).
Proof.
  intros Hfail. split.
  - now apply Create_fails.
  - intros auxData Hlen. now apply Validate_fails.
Qed.

(** C5. The error of [Validate] follows this order: a length other than 64
    first; then, for a 64-byte input, an error of either oracle query,
    whatever the rounds and hashes are; then a round that differs from the
    current one, whether or not the hash differs too; then a hash that
    differs; and no error when none of these applies. *)
Theorem Validate_error_priority (v v' : M) (auxData : list Byte.byte) :
  (length auxData <> 64 ->
   Validate v auxData = (v, Returns (Some errInvalidAuxDataLength))) /\
  (length auxData = 64 ->
   (forall e, OracleFails v e v' ->
              Validate v auxData = (v', Returns (Some e))) /\
   (forall r h,
      OracleAnswers v r h v' ->
      (big.SetBytes (firstn 32 auxData) <> r ->
       Validate v auxData = (v', Returns (Some errInvalidCreationRound))) /\
      (big.SetBytes (firstn 32 auxData) = r ->
       skipn 32 auxData <> slice h ->
       Validate v auxData =
       (v', Returns (Some errInvalidCreationRoundBlockHash))) /\
      (big.SetBytes (firstn 32 auxData) = r ->
       skipn 32 auxData = slice h ->
       Validate v auxData = (v', Returns None)))).
Proof.
  split; [apply Validate_invalid|].
  intros Hlen. split.
  - intros e Hfail. now apply Validate_fails.
  - intros r h Hans. repeat split.
    + now apply Validate_round_mismatch with (h := h).
    + now apply Validate_hash_mismatch with (r := r).
    + now apply Validate_match with (r := r) (h := h).
Qed.

(** C6. On a 64-byte input that encodes round [r], with a current round
    [r' <> r], [Validate] calls [LastInitializedRound] and then
    [BlockHashForRound] with [r'] (not [r]); it returns the round-mismatch
    error when that second query succeeds, and the query's own error when
    it fails. *)
Theorem Validate_queries_current_round
        (v v1 v2 : M) (calls : list Call) (auxData : list Byte.byte)
        (r r' : Z) (h : array32) (err : option error) :
  length auxData = 64 ->
  big.SetBytes (firstn 32 auxData) = r ->
  r <> r' ->
  LastInitializedRound v = (v1, (Some r', None)) ->
  BlockHashForRound v1 (Some r') = (v2, (h, err)) ->
  Validate {| target := v; Calls := calls |} auxData =
  ({| target := v2;
      Calls := calls ++ [Call_LastInitializedRound;
                         Call_BlockHashForRound (Some r')] |},
   Returns (Some match err with
                 | None => errInvalidCreationRound
                 | Some e => e
                 end)).
Proof.
  intros Hlen Hdec Hneq Hround Hhash. destruct err as [e|].
  - apply Validate_fails; [exact Hlen|]. right.
    exists {| target := v1; Calls := calls ++ [Call_LastInitializedRound] |},
           (Some r'), h.
    cbn. rewrite Hround, Hhash, <- app_assoc. split; reflexivity.
  - apply Validate_round_mismatch with (r := r') (h := h);
      [exact Hlen | | congruence].
    apply Recorder_answers. exists v1. split; assumption.
Qed.

(** C7. On a 64-byte input [Validate] returns nil exactly when both oracle
    queries succeed, the first 32 bytes read as an unsigned big-endian
    number equal the current round, and the last 32 bytes are the bytes of
    that round's block hash. *)
Theorem Validate_nil_iff (v v' : M) (auxData : list Byte.byte) :
  length auxData = 64 ->
  Validate v auxData = (v', Returns None) <->
  exists r h,
    OracleAnswers v r h v' /\
    big.SetBytes (firstn 32 auxData) = r /\
    skipn 32 auxData = slice h.
Proof.
  intros Hlen. split.
  - unfold Validate. rewrite (proj2 (Nat.eqb_eq _ _) Hlen). cbn [negb].
    destruct (LastInitializedRound v) as [v1 [round [e|]]] eqn:Hround;
      [discriminate|].
    destruct (BlockHashForRound v1 round) as [v2 [h [e|]]] eqn:Hhash;
      [discriminate|].
    destruct round as [r|]; [|discriminate].
    destruct (Z.eqb_spec (big.Cmp (big.SetBytes (firstn 32 auxData)) r) 0)
      as [Er|Er]; [|discriminate].
    cbn [negb].
    destruct (GoBytes.Equal (skipn 32 auxData) (slice h)) eqn:Eh;
      [|discriminate].
    cbn [negb]. intros Hv. injection Hv as ->.
    exists r, h. split; [exists v1; split; assumption|].
    split; [now apply -> Cmp_eq | now apply -> Equal_eq].
  - intros (r & h & Hans & Hr & Hh). now apply Validate_match with (r := r) (h := h).
Qed.

(** C8. With both oracle queries succeeding, [Validate] accepts 64 zero
    bytes if and only if the current round is 0 and the block hash
    returned for it is 32 zero bytes. *)
Theorem Validate_zero_iff (v v' : M) (r : Z) (h : array32) :
  OracleAnswers v r h v' ->
  Validate v (repeat x00 64) = (v', Returns None) <->
  r = 0%Z /\ slice h = repeat x00 32.
Proof.
  intros Hans. rewrite (Validate_answers v v' r h (repeat x00 64) eq_refl Hans).
  change (big.SetBytes (firstn 32 (repeat x00 64))) with 0%Z.
  change (skipn 32 (repeat x00 64)) with (repeat x00 32).
  destruct (Z.eqb_spec (big.Cmp 0 r) 0) as [Er|Er]; cbn [negb].
  - apply -> Cmp_eq in Er. subst r.
    destruct (GoBytes.Equal (repeat x00 32) (slice h)) eqn:Eh; cbn [negb].
    + apply -> Equal_eq in Eh. split; [intros _; now split|reflexivity].
    + split; [discriminate|]. intros [_ Hh].
      rewrite Hh in Eh. discriminate.
  - split; [discriminate|]. intros [-> _]. now contradiction Er.
Qed.

End Properties.

(** ** The minimal representation of a round *)

Section Minimal.
Local Open Scope Z_scope.

Lemma bytelen_bounds (r : Z) :
  r <> 0 ->
  256 ^ Z.of_nat (bytelen r - 1) <= Z.abs r < 256 ^ Z.of_nat (bytelen r).
Proof.
  intros Hr. unfold bytelen. destruct (Z.eqb_spec r 0) as [E|_]; [contradiction|].
  assert (0 < Z.abs r) as Hpos by lia.
  set (q := Z.log2 (Z.abs r) / 8).
  assert (0 <= q) as Hq.
  { apply Z.div_pos; [apply Z.log2_nonneg|lia]. }
  replace (S (Z.to_nat q) - 1)%nat with (Z.to_nat q) by lia.
  rewrite Nat2Z.inj_succ, Z2Nat.id by exact Hq.
  destruct (Z.log2_spec (Z.abs r) Hpos) as [Hlo Hhi].
  assert (8 * q <= Z.log2 (Z.abs r)) as Hq1.
  { apply Z.mul_div_le. lia. }
  assert (Z.succ (Z.log2 (Z.abs r)) <= 8 * Z.succ q) as Hq2.
  { pose proof (Z.mul_succ_div_gt (Z.log2 (Z.abs r)) 8). fold q in H. lia. }
  change 256 with (2 ^ 8).
  rewrite <- !Z.pow_mul_r by lia.
  split.
  - apply Z.le_trans with (2 ^ Z.log2 (Z.abs r)); [|exact Hlo].
    apply Z.pow_le_mono_r; lia.
  - apply Z.lt_le_trans with (2 ^ Z.succ (Z.log2 (Z.abs r))); [exact Hhi|].
    apply Z.pow_le_mono_r; lia.
Qed.

Lemma pow256_between (a b : nat) (x : Z) :
  256 ^ Z.of_nat (a - 1) <= x < 256 ^ Z.of_nat a ->
  256 ^ Z.of_nat (b - 1) <= x < 256 ^ Z.of_nat b ->
  (0 < a)%nat -> (0 < b)%nat -> a = b.
Proof.
  intros [Ha1 Ha2] [Hb1 Hb2] Ha Hb.
  assert (256 ^ Z.of_nat (a - 1) < 256 ^ Z.of_nat b) as H1 by lia.
  assert (256 ^ Z.of_nat (b - 1) < 256 ^ Z.of_nat a) as H2 by lia.
  apply Z.pow_lt_mono_r_iff in H1; [|lia|lia].
  apply Z.pow_lt_mono_r_iff in H2; [|lia|lia].
  lia.
Qed.

Lemma pow256_N_Z (k : nat) : Z.of_N (256 ^ N.of_nat k) = 256 ^ Z.of_nat k.
Proof. rewrite N2Z.inj_pow, nat_N_Z. reflexivity. Qed.

(** [Bytes] has exactly [bytelen] bytes. *)
Lemma Bytes_length (r : Z) : length (big.Bytes r) = bytelen r.
Proof.
  destruct (Z.eq_dec r 0) as [->|Hr]; [reflexivity|].
  pose proof (Bytes_minimal r Hr) as Hmin.
  pose proof (Bytes_bound r) as Hmax.
  apply N2Z.inj_le in Hmin. apply N2Z.inj_lt in Hmax.
  rewrite pow256_N_Z, N2Z.inj_abs_N in Hmin, Hmax.
  assert (0 < length (big.Bytes r))%nat as Hpos.
  { destruct (length (big.Bytes r)); [|lia]. cbn in Hmax. lia. }
  replace (pred (length (big.Bytes r))) with (length (big.Bytes r) - 1)%nat
    in Hmin by lia.
  apply pow256_between with (x := Z.abs r).
  - split; assumption.
  - now apply bytelen_bounds.
  - exact Hpos.
  - unfold bytelen. destruct (Z.eqb_spec r 0); [contradiction|lia].
Qed.

(** [be_bytes] digit by digit. *)
Lemma be_bytes_digits (k : nat) (n : N) :
  big.be_bytes k n =
  map (fun i => GoBytes.of_N (n / 256 ^ N.of_nat (k - 1 - i))) (seq 0 k).
Proof.
  induction k as [|k IH]; [reflexivity|].
  cbn [big.be_bytes seq map]. f_equal.
  - do 2 f_equal. f_equal. lia.
  - rewrite IH, <- seq_shift, map_map. apply map_ext.
    intros i. do 3 f_equal. lia.
Qed.

(** [Bytes] is the minimal big-endian representation. *)
Lemma Bytes_BigEndianMinimal (r : Z) : big.Bytes r = BigEndianMinimal r.
Proof.
  unfold BigEndianMinimal. rewrite <- be_bytes_digits.
  apply be_value_inj.
  - rewrite be_bytes_length. apply Bytes_length.
  - rewrite be_value_Bytes, be_value_be_bytes, N.mul_0_l, N.add_0_l.
    symmetry. apply N.mod_small.
    rewrite <- Bytes_length. apply Bytes_bound.
Qed.

End Minimal.

Section TwoManagers.

Context {M M' : Type} `{RoundsManager M} `{RoundsManager M'}.

(** C1. For a round [0 <= r < 2^256] and a block hash [h], when the
    rounds manager returns [(r, h)] without error to the creator and again
    to the validator, [Validate] accepts what [Create] produced. *)
Theorem Validate_Create_roundtrip
        (c c' : M) (v v' : M') (r : Z) (h : array32) :
  (0 <= r < 2 ^ 256)%Z ->
  OracleAnswers c r h c' ->
  OracleAnswers v r h v' ->
  exists auxData,
    Create c = (c', Returns (auxData, None)) /\
    Validate v auxData = (v', Returns None).
Proof.
  intros Hr Hc Hv.
  exists (ethcommon.LeftPadBytes (big.Bytes r) 32 ++ slice h).
  split; [now apply Create_answers|].
  rewrite LeftPadBytes_round by exact Hr.
  apply Validate_match with (r := r) (h := h).
  - rewrite length_app, BigEndian32_length, (slice_len h). reflexivity.
  - exact Hv.
  - rewrite firstn_round. now apply SetBytes_BigEndian32.
  - apply skipn_round.
Qed.

(** C9. Two runs in which the rounds manager gives the same responses
    return the same thing: [Create] the same bytes and error, [Validate]
    on one input the same result, whatever else differs between the two
    rounds managers. *)
Theorem same_responses_same_results (m : M) (m' : M') :
  responses m = responses m' ->
  snd (Create m) = snd (Create m') /\
  forall auxData, snd (Validate m auxData) = snd (Validate m' auxData).
Proof.
  unfold responses, Create, Validate.
  destruct (LastInitializedRound m) as [m1 [round [e|]]];
    destruct (LastInitializedRound m') as [m1' [round' [e'|]]];
    try discriminate.
  - intros E. injection E as -> ->.
    split; [reflexivity|]. intros auxData.
    destruct (negb (length auxData =? 64)); reflexivity.
  - destruct (BlockHashForRound m1 round) as [m2 [h err]];
      destruct (BlockHashForRound m1' round') as [m2' [h' err']].
    cbn [snd]. intros E. injection E as -> -> ->.
    split.
    + destruct err' as [e|]; [reflexivity|]. destruct round'; reflexivity.
    + intros auxData. destruct (negb (length auxData =? 64)); [reflexivity|].
      destruct err' as [e|]; [reflexivity|]. destruct round' as [r|]; [|reflexivity].
      destruct (negb (big.Cmp _ r =? 0)%Z); [reflexivity|].
      destruct (negb (GoBytes.Equal _ _)); reflexivity.
Qed.

(** C10. For a round [r >= 2^256] returned without error, [Create] still
    returns a nil error; its output is the minimal big-endian representation
    of [r], unpadded, followed by the hash: [32 + bytelen r] bytes, where
    [bytelen r] is the one [k] with [256^(k-1) <= r < 256^k] and exceeds 32;
    that is more than 64 bytes, which [Validate] rejects for its length
    without a query. *)
Theorem Create_oversized_round (c c' : M) (v : M') (r : Z) (h : array32) :
  (2 ^ 256 <= r)%Z ->
  OracleAnswers c r h c' ->
  exists auxData,
    Create c = (c', Returns (auxData, None)) /\
    auxData = big.Bytes r ++ slice h /\
    big.SetBytes (big.Bytes r) = r /\
    32 < length (big.Bytes r) /\
    length auxData = 32 + length (big.Bytes r) /\
    64 < length auxData /\
    Validate v auxData = (v, Returns (Some errInvalidAuxDataLength)) /\
    auxData = BigEndianMinimal r ++ slice h /\
    (256 ^ Z.of_nat (bytelen r - 1) <= r < 256 ^ Z.of_nat (bytelen r))%Z /\
    32 < bytelen r /\
    length auxData = 32 + bytelen r.
Proof.
  intros Hr Hans.
  assert (32 < length (big.Bytes r)) as Hlen.
  { apply Bytes_length_gt.
    change (256 ^ N.of_nat 32)%N with (Z.to_N (2 ^ 256)). lia. }
  assert (length (big.Bytes r ++ slice h) = 32 + length (big.Bytes r)) as Hout.
  { rewrite length_app, (slice_len h). lia. }
  assert (r <> 0%Z) as Hnz by lia.
  pose proof (bytelen_bounds r Hnz) as Hbounds.
  rewrite Z.abs_eq in Hbounds by lia.
  exists (big.Bytes r ++ slice h).
  repeat apply conj.
  - rewrite (Create_answers c c' r h Hans). unfold ethcommon.LeftPadBytes.
    destruct (Nat.leb_spec 32 (length (big.Bytes r))); [reflexivity|lia].
  - reflexivity.
  - rewrite SetBytes_Bytes. lia.
  - exact Hlen.
  - exact Hout.
  - lia.
  - apply Validate_invalid. lia.
  - rewrite Bytes_BigEndianMinimal. reflexivity.
  - exact (proj1 Hbounds).
  - exact (proj2 Hbounds).
  - rewrite <- Bytes_length. exact Hlen.
  - rewrite <- Bytes_length. exact Hout.
Qed.

End TwoManagers.

(** ** The properties on the rounds managers of the tests *)

Lemma Validate_Create_roundtrip_witness :
  OracleAnswers (testRounds 5 testBlkHash) 5 testBlkHash
                (testRounds 5 testBlkHash) /\
  exists auxData,
    Create (testRounds 5 testBlkHash) =
    (testRounds 5 testBlkHash, Returns (auxData, None)) /\
    Validate {| target := testRounds 5 testBlkHash; Calls := [] |} auxData =
    ({| target := testRounds 5 testBlkHash;
        Calls := [Call_LastInitializedRound;
                  Call_BlockHashForRound (Some 5%Z)] |},
     Returns None).
Proof.
  assert (OracleAnswers (testRounds 5 testBlkHash) 5 testBlkHash
                        (testRounds 5 testBlkHash)) as Hans.
  { exists (testRounds 5 testBlkHash). split; reflexivity. }
  split; [exact Hans|].
  apply (Validate_Create_roundtrip
           (testRounds 5 testBlkHash) (testRounds 5 testBlkHash)
           {| target := testRounds 5 testBlkHash; Calls := [] |} _
           5 testBlkHash).
  - split; [discriminate|reflexivity].
  - exact Hans.
  - exact (Recorder_answers _ _ _ _ [] Hans).
Defined.

Lemma Create_wire_format_witness :
  Create (testRounds 5 testBlkHash) =
  (testRounds 5 testBlkHash, Returns (testAuxData, None)) /\
  Create (testRounds 0 emptyBlkHash) =
  (testRounds 0 emptyBlkHash, Returns (repeat x00 64, None)).
Proof.
  split.
  - apply (Create_wire_format (testRounds 5 testBlkHash)
                              (testRounds 5 testBlkHash) 5 testBlkHash).
    + split; [discriminate|reflexivity].
    + exists (testRounds 5 testBlkHash). split; reflexivity.
  - apply (Create_wire_format (testRounds 0 emptyBlkHash)
                              (testRounds 0 emptyBlkHash) 0 emptyBlkHash).
    + split; [discriminate|reflexivity].
    + exists (testRounds 0 emptyBlkHash). split; reflexivity.
Defined.

Lemma Validate_rejects_length_witness :
  Validate {| target := testRounds 5 testBlkHash; Calls := [] |}
           (slice testBlkHash) =
  ({| target := testRounds 5 testBlkHash; Calls := [] |},
   Returns (Some errInvalidAuxDataLength)).
Proof.
  apply (Validate_rejects_length (testRounds 5 testBlkHash) []
                                 (slice testBlkHash)).
  cbn. lia.
Defined.

Lemma oracle_error_verbatim_witness :
  let e1 := errors_New "LastInitializedRound error" in
  let e2 := errors_New "BlockHashForRound error" in
  (Create (failingRound e1) = (failingRound e1, Returns ([], Some e1)) /\
   Validate (failingRound e1) testAuxData =
   (failingRound e1, Returns (Some e1))) /\
  (Create (failingBlockHash 5 e2) =
   (failingBlockHash 5 e2, Returns ([], Some e2)) /\
   Validate (failingBlockHash 5 e2) testAuxData =
   (failingBlockHash 5 e2, Returns (Some e2))).
Proof.
  intros e1 e2. split.
  - destruct (oracle_error_verbatim (failingRound e1) (failingRound e1) e1)
      as [HC HV].
    + left. exists None. reflexivity.
    + split; [exact HC|]. apply HV. reflexivity.
  - destruct (oracle_error_verbatim (failingBlockHash 5 e2)
                                    (failingBlockHash 5 e2) e2) as [HC HV].
    + right. exists (failingBlockHash 5 e2), (Some 5%Z), emptyBlkHash.
      split; reflexivity.
    + split; [exact HC|]. apply HV. reflexivity.
Defined.

Lemma Validate_error_priority_witness :
  Validate (testRounds 2 emptyBlkHash) testAuxData =
  (testRounds 2 emptyBlkHash, Returns (Some errInvalidCreationRound)) /\
  Validate (testRounds 5 emptyBlkHash) testAuxData =
  (testRounds 5 emptyBlkHash, Returns (Some errInvalidCreationRoundBlockHash)) /\
  Validate (testRounds 5 testBlkHash) testAuxData =
  (testRounds 5 testBlkHash, Returns None).
Proof.
  split; [|split].
  - destruct (Validate_error_priority (testRounds 2 emptyBlkHash)
                (testRounds 2 emptyBlkHash) testAuxData) as [_ Hp].
    destruct (Hp eq_refl) as [_ Hans].
    destruct (Hans 2%Z emptyBlkHash) as [Hround _].
    + exists (testRounds 2 emptyBlkHash). split; reflexivity.
    + apply Hround. discriminate.
  - destruct (Validate_error_priority (testRounds 5 emptyBlkHash)
                (testRounds 5 emptyBlkHash) testAuxData) as [_ Hp].
    destruct (Hp eq_refl) as [_ Hans].
    destruct (Hans 5%Z emptyBlkHash) as (_ & Hhash & _).
    + exists (testRounds 5 emptyBlkHash). split; reflexivity.
    + apply Hhash; [reflexivity|discriminate].
  - destruct (Validate_error_priority (testRounds 5 testBlkHash)
                (testRounds 5 testBlkHash) testAuxData) as [_ Hp].
    destruct (Hp eq_refl) as [_ Hans].
    destruct (Hans 5%Z testBlkHash) as (_ & _ & Hnil).
    + exists (testRounds 5 testBlkHash). split; reflexivity.
    + apply Hnil; reflexivity.
Defined.

Lemma Validate_queries_current_round_witness :
  Validate {| target := testRounds 5 testBlkHash; Calls := [] |}
           (BigEndian32 2 ++ slice testBlkHash) =
  ({| target := testRounds 5 testBlkHash;
      Calls := [Call_LastInitializedRound;
                Call_BlockHashForRound (Some 5%Z)] |},
   Returns (Some errInvalidCreationRound)).
Proof.
  apply (Validate_queries_current_round
           (testRounds 5 testBlkHash) (testRounds 5 testBlkHash)
           (testRounds 5 testBlkHash) []
           (BigEndian32 2 ++ slice testBlkHash) 2 5 testBlkHash None).
  - reflexivity.
  - reflexivity.
  - discriminate.
  - reflexivity.
  - reflexivity.
Defined.

Lemma Validate_nil_iff_witness :
  Validate (testRounds 5 testBlkHash) testAuxData =
  (testRounds 5 testBlkHash, Returns None).
Proof.
  apply (Validate_nil_iff (testRounds 5 testBlkHash) (testRounds 5 testBlkHash)
                          testAuxData eq_refl).
  exists 5%Z, testBlkHash. split; [|split; reflexivity].
  exists (testRounds 5 testBlkHash). split; reflexivity.
Defined.

Lemma Validate_zero_iff_witness :
  Validate (testRounds 0 emptyBlkHash) (repeat x00 64) =
  (testRounds 0 emptyBlkHash, Returns None) /\
  Validate (testRounds 5 emptyBlkHash) (repeat x00 64) <>
  (testRounds 5 emptyBlkHash, Returns None).
Proof.
  split.
  - apply (Validate_zero_iff (testRounds 0 emptyBlkHash)
                             (testRounds 0 emptyBlkHash) 0 emptyBlkHash).
    + exists (testRounds 0 emptyBlkHash). split; reflexivity.
    + split; reflexivity.
  - intros Hnil.
    apply (Validate_zero_iff (testRounds 5 emptyBlkHash)
                             (testRounds 5 emptyBlkHash) 5 emptyBlkHash) in Hnil.
    + destruct Hnil as [Hr _]. discriminate Hr.
    + exists (testRounds 5 emptyBlkHash). split; reflexivity.
Defined.

Lemma same_responses_same_results_witness :
  snd (Create (testRounds 5 testBlkHash)) =
  snd (Create {| target := testRounds 5 testBlkHash;
                 Calls := [Call_LastInitializedRound] |}) /\
  snd (Validate (testRounds 5 testBlkHash) testAuxData) =
  snd (Validate {| target := testRounds 5 testBlkHash;
                   Calls := [Call_LastInitializedRound] |} testAuxData).
Proof.
  destruct (same_responses_same_results
              (testRounds 5 testBlkHash)
              {| target := testRounds 5 testBlkHash;
                 Calls := [Call_LastInitializedRound] |}) as [HC HV].
  - reflexivity.
  - split; [exact HC|apply HV].
Defined.

Lemma Create_oversized_round_witness :
  exists auxData,
    Create (testRounds (2 ^ 256) testBlkHash) =
    (testRounds (2 ^ 256) testBlkHash, Returns (auxData, None)) /\
    auxData = big.Bytes (2 ^ 256) ++ slice testBlkHash /\
    big.SetBytes (big.Bytes (2 ^ 256)) = (2 ^ 256)%Z /\
    32 < length (big.Bytes (2 ^ 256)) /\
    length auxData = 32 + length (big.Bytes (2 ^ 256)) /\
    64 < length auxData /\
    Validate (testRounds (2 ^ 256) testBlkHash) auxData =
    (testRounds (2 ^ 256) testBlkHash, Returns (Some errInvalidAuxDataLength)) /\
    auxData = BigEndianMinimal (2 ^ 256) ++ slice testBlkHash /\
    (256 ^ Z.of_nat (bytelen (2 ^ 256) - 1) <= 2 ^ 256
     < 256 ^ Z.of_nat (bytelen (2 ^ 256)))%Z /\
    32 < bytelen (2 ^ 256) /\
    length auxData = 32 + bytelen (2 ^ 256).
Proof.
  apply (Create_oversized_round (testRounds (2 ^ 256) testBlkHash)
                                (testRounds (2 ^ 256) testBlkHash)
                                (testRounds (2 ^ 256) testBlkHash)
                                (2 ^ 256) testBlkHash).
  - apply Z.le_refl.
  - exists (testRounds (2 ^ 256) testBlkHash). split; reflexivity.
Defined.

(** ** Decoding a 64-byte input *)

Section Decoding.
Local Open Scope Z_scope.

Lemma Bytes_opp (r : Z) : big.Bytes (- r) = big.Bytes r.
Proof.
  unfold big.Bytes. replace (Z.abs_N (- r)) with (Z.abs_N r) by lia.
  reflexivity.
Qed.

Lemma be_value_BigEndian32 (r : Z) :
  big.be_value 0 (BigEndian32 r) = (Z.to_N r mod 256 ^ N.of_nat 32)%N.
Proof. rewrite BigEndian32_be_bytes, be_value_be_bytes. lia. Qed.

Lemma be_value_32 (l : list Byte.byte) :
  length l = 32%nat -> (big.be_value 0 l < 256 ^ N.of_nat 32)%N.
Proof.
  intros Hlen. pose proof (be_value_bound l) as Hb.
  rewrite Hlen in Hb. exact Hb.
Qed.

(** A 32-byte slice reads as a number below [2^256]. *)
Lemma SetBytes_32_range (l : list Byte.byte) :
  length l = 32%nat -> 0 <= big.SetBytes l < 2 ^ 256.
Proof.
  intros Hlen. pose proof (be_value_32 l Hlen) as Hb.
  unfold big.SetBytes.
  change (256 ^ N.of_nat 32)%N with (Z.to_N (2 ^ 256)) in Hb. lia.
Qed.

(** A 32-byte slice is the encoding of its own value. *)
Lemma BigEndian32_SetBytes (l : list Byte.byte) :
  length l = 32%nat -> BigEndian32 (big.SetBytes l) = l.
Proof.
  intros Hlen. apply be_value_inj.
  - rewrite BigEndian32_length, Hlen. reflexivity.
  - rewrite be_value_BigEndian32. unfold big.SetBytes. rewrite N2Z.id.
    apply N.mod_small. now apply be_value_32.
Qed.

Lemma firstn_32_length (auxData : list Byte.byte) :
  length auxData = 64%nat -> length (firstn 32 auxData) = 32%nat.
Proof. intros Hlen. rewrite length_firstn, Hlen. reflexivity. Qed.

Lemma split_auxData (auxData : list Byte.byte) :
  length auxData = 64%nat ->
  auxData = BigEndian32 (big.SetBytes (firstn 32 auxData)) ++ skipn 32 auxData.
Proof.
  intros Hlen. rewrite BigEndian32_SetBytes by now apply firstn_32_length.
  symmetry. apply firstn_skipn.
Qed.

Lemma encoding_length (r : Z) (h : array32) :
  length (BigEndian32 r ++ slice h) = 64%nat.
Proof. rewrite length_app, BigEndian32_length, (slice_len h). reflexivity. Qed.

Lemma SetBytes_encoding (r : Z) (l : list Byte.byte) :
  0 <= r < 2 ^ 256 -> big.SetBytes (firstn 32 (BigEndian32 r ++ l)) = r.
Proof. intros Hr. rewrite firstn_round. now apply SetBytes_BigEndian32. Qed.

(** The length of [Create]'s round field: 32 bytes exactly for a magnitude
    below [2^256], more above. *)
Lemma LeftPadBytes_round_length (r : Z) :
  (32 <= length (ethcommon.LeftPadBytes (big.Bytes r) 32))%nat /\
  (length (ethcommon.LeftPadBytes (big.Bytes r) 32) = 32%nat <->
   - 2 ^ 256 < r < 2 ^ 256).
Proof.
  rewrite LeftPadBytes_length. split; [lia|].
  split.
  - intros Hlen.
    destruct (Z_lt_le_dec (Z.abs r) (2 ^ 256)) as [Hlt|Hge]; [lia|].
    assert (32 < length (big.Bytes r))%nat; [|lia].
    apply Bytes_length_gt.
    change (256 ^ N.of_nat 32)%N with (Z.to_N (2 ^ 256)). lia.
  - intros Hr.
    assert (length (big.Bytes r) <= 32)%nat; [|lia].
    apply Bytes_length_le.
    change (256 ^ N.of_nat 32)%N with (Z.to_N (2 ^ 256)). lia.
Qed.

End Decoding.

Section Functional.

Context {M : Type} `{RoundsManager M}.

(** The answers of a rounds manager in a given state are determined. *)
Lemma OracleAnswers_functional (m m1 m2 : M) (r1 r2 : Z) (h1 h2 : array32) :
  OracleAnswers m r1 h1 m1 -> OracleAnswers m r2 h2 m2 ->
  r1 = r2 /\ h1 = h2 /\ m1 = m2.
Proof.
  intros (a & Ha & Hb) (b & Hc & Hd).
  rewrite Ha in Hc. injection Hc as -> ->.
  rewrite Hb in Hd. injection Hd as -> ->. auto.
Qed.

Lemma OracleAnswers_not_fails (m m1 m2 : M) (r : Z) (h : array32) (e : error) :
  OracleAnswers m r h m1 -> OracleFails m e m2 -> False.
Proof.
  intros (a & Ha & Hb) [(round & Hc) | (b & round & h' & Hc & Hd)].
  - rewrite Ha in Hc. discriminate.
  - rewrite Ha in Hc. injection Hc as -> <-.
    rewrite Hb in Hd. discriminate.
Qed.

End Functional.

(** ** Further properties of [Create] and [Validate] *)

Section Further.

Context {M : Type} `{RoundsManager M}.

(** X1. With both queries succeeding, the only input [Validate] accepts
    is the one [Create] builds from the same round and hash: the current
    round lies in [0, 2^256) and the input is its 32-byte encoding
    followed by the hash, byte for byte. *)
Theorem Validate_accepts_only_encoding
        (v v' : M) (r : Z) (h : array32) (auxData : list Byte.byte) :
  OracleAnswers v r h v' ->
  Validate v auxData = (v', Returns None) <->
  (0 <= r < 2 ^ 256)%Z /\ auxData = BigEndian32 r ++ slice h.
Proof.
  intros Hans. split.
  - intros Hv. destruct (Nat.eq_dec (length auxData) 64) as [Hlen|Hlen].
    + apply (Validate_nil_iff v v' auxData Hlen) in Hv.
      destruct Hv as (r0 & h0 & Hans0 & Hr0 & Hh0).
      destruct (OracleAnswers_functional _ _ _ _ _ _ _ Hans Hans0)
        as (<- & <- & _).
      split.
      * rewrite <- Hr0. apply SetBytes_32_range. now apply firstn_32_length.
      * rewrite <- Hr0, <- Hh0. now apply split_auxData.
    + rewrite (Validate_invalid v auxData Hlen) in Hv. discriminate Hv.
  - intros [Hr ->]. apply Validate_match with (r := r) (h := h).
    + apply encoding_length.
    + exact Hans.
    + now apply SetBytes_encoding.
    + apply skipn_round.
Qed.

(** X2. When the current round is negative or at least [2^256], no 64-byte
    input can match it: [Validate] returns the round-mismatch error for
    every 64-byte input. *)
Theorem Validate_rejects_out_of_range_round
        (v v' : M) (r : Z) (h : array32) (auxData : list Byte.byte) :
  length auxData = 64 ->
  OracleAnswers v r h v' ->
  (r < 0 \/ 2 ^ 256 <= r)%Z ->
  Validate v auxData = (v', Returns (Some errInvalidCreationRound)).
Proof.
  intros Hlen Hans Hr.
  apply Validate_round_mismatch with (r := r) (h := h); [exact Hlen|exact Hans|].
  pose proof (SetBytes_32_range _ (firstn_32_length _ Hlen)). lia.
Qed.

(** X3. The calls of [Create], in order: [LastInitializedRound], then,
    only when that returned no error, [BlockHashForRound] with the very
    round it returned; nothing else.  Recording the calls changes neither
    the result nor the state the rounds manager is left in. *)
Theorem Create_calls (m : M) (calls : list Call) :
  Calls (fst (Create {| target := m; Calls := calls |})) =
  calls ++ Call_LastInitializedRound ::
        match snd (snd (LastInitializedRound m)) with
        | Some _ => []
        | None => [Call_BlockHashForRound (fst (snd (LastInitializedRound m)))]
        end /\
  target (fst (Create {| target := m; Calls := calls |})) = fst (Create m) /\
  snd (Create {| target := m; Calls := calls |}) = snd (Create m).
Proof.
  unfold Create. cbn [LastInitializedRound BlockHashForRound
                      Recorder_RoundsManager target Calls].
  destruct (LastInitializedRound m) as [m1 [round [e|]]]; cbn [fst snd].
  - cbn. auto.
  - cbn [target Calls].
    destruct (BlockHashForRound m1 round) as [m2 [h [e|]]];
      [|destruct round]; cbn; rewrite <- app_assoc; auto.
Qed.

(** X4. The calls of [Validate], in order: none for an input whose length
    is not 64; otherwise [LastInitializedRound], then, only when that
    returned no error, [BlockHashForRound] with the round it returned.
    Recording the calls changes neither the result nor the final state. *)
Theorem Validate_calls (m : M) (calls : list Call) (auxData : list Byte.byte) :
  Calls (fst (Validate {| target := m; Calls := calls |} auxData)) =
  (if (length auxData =? 64)%nat then
     calls ++ Call_LastInitializedRound ::
           match snd (snd (LastInitializedRound m)) with
           | Some _ => []
           | None =>
             [Call_BlockHashForRound (fst (snd (LastInitializedRound m)))]
           end
   else calls) /\
  target (fst (Validate {| target := m; Calls := calls |} auxData)) =
  fst (Validate m auxData) /\
  snd (Validate {| target := m; Calls := calls |} auxData) =
  snd (Validate m auxData).
Proof.
  unfold Validate. destruct (length auxData =? 64)%nat; cbn [negb]; [|cbn; auto].
  cbn [LastInitializedRound BlockHashForRound
       Recorder_RoundsManager target Calls].
  destruct (LastInitializedRound m) as [m1 [round [e|]]]; cbn [fst snd].
  - cbn. auto.
  - cbn [target Calls].
    destruct (BlockHashForRound m1 round) as [m2 [h [e|]]].
    + cbn. rewrite <- app_assoc. auto.
    + destruct round as [r|].
      * destruct (negb (big.Cmp _ r =? 0)%Z);
          [|destruct (negb (GoBytes.Equal _ _))];
          cbn; rewrite <- app_assoc; auto.
      * cbn. rewrite <- app_assoc. auto.
Qed.

(** X5. The two methods panic in one situation only: the rounds manager
    returned a nil round with a nil error and then answered
    [BlockHashForRound(nil)] without error.  [Validate] reaches it only
    on a 64-byte input. *)
Theorem panics_iff_nil_round (m m' : M) (auxData : list Byte.byte) :
  (Create m = (m', Panics) <->
   exists m1 h, LastInitializedRound m = (m1, (None, None)) /\
                BlockHashForRound m1 None = (m', (h, None))) /\
  (Validate m auxData = (m', Panics) <->
   length auxData = 64 /\
   exists m1 h, LastInitializedRound m = (m1, (None, None)) /\
                BlockHashForRound m1 None = (m', (h, None))).
Proof.
  split.
  - unfold Create. split.
    + destruct (LastInitializedRound m) as [m1 [round [e|]]]; [discriminate|].
      destruct (BlockHashForRound m1 round) as [m2 [h [e|]]] eqn:Hhash;
        [discriminate|].
      destruct round as [r|]; [discriminate|].
      intros Hp. injection Hp as <-. exists m1, h. auto.
    + intros (m1 & h & -> & ->). reflexivity.
  - unfold Validate. split.
    + destruct (Nat.eqb_spec (length auxData) 64) as [Hlen|Hlen];
        cbn [negb]; [|discriminate].
      destruct (LastInitializedRound m) as [m1 [round [e|]]]; [discriminate|].
      destruct (BlockHashForRound m1 round) as [m2 [h [e|]]] eqn:Hhash;
        [discriminate|].
      destruct round as [r|].
      * destruct (negb (big.Cmp _ r =? 0)%Z); [discriminate|].
        destruct (negb (GoBytes.Equal _ _)); discriminate.
      * intros Hp. injection Hp as <-. split; [exact Hlen|]. exists m1, h. auto.
    + intros (Hlen & m1 & h & -> & ->).
      rewrite (proj2 (Nat.eqb_eq _ _) Hlen). reflexivity.
Qed.

(** X6. Whenever [Create] returns, either it returns the nil slice with an
    error that one of the queries returned, or it returns no error and at
    least 64 bytes: exactly 64 when the round's magnitude is below [2^256],
    more otherwise.  It never returns data with an error, nor fewer than
    64 bytes without one. *)
Theorem Create_returns
        (m m' : M) (data : list Byte.byte) (err : option error) :
  Create m = (m', Returns (data, err)) ->
  (exists e, err = Some e /\ data = [] /\ OracleFails m e m') \/
  (err = None /\ 64 <= length data /\
   exists r h, OracleAnswers m r h m' /\
               (length data = 64 <-> (- 2 ^ 256 < r < 2 ^ 256)%Z)).
Proof.
  unfold Create.
  destruct (LastInitializedRound m) as [m1 [round [e|]]] eqn:Hround.
  - intros Hc. injection Hc as <- <- <-. left. exists e.
    split; [reflexivity|]. split; [reflexivity|].
    left. exists round. exact Hround.
  - destruct (BlockHashForRound m1 round) as [m2 [h [e|]]] eqn:Hhash.
    + intros Hc. injection Hc as <- <- <-. left. exists e.
      split; [reflexivity|]. split; [reflexivity|].
      right. exists m1, round, h. auto.
    + destruct round as [r|]; [|discriminate].
      intros Hc. injection Hc as <- <- <-. right.
      destruct (LeftPadBytes_round_length r) as [Hge Hiff].
      rewrite length_app, (slice_len h).
      split; [reflexivity|]. split; [lia|].
      exists r, h. split; [exists m1; auto|].
      rewrite <- Hiff. lia.
Qed.

(** X7. Whenever [Validate] returns an error, it is the invalid-length
    error for an input whose length is not 64 (and the rounds manager is
    unchanged), or the input has 64 bytes and the error is one a query
    returned, or the round-mismatch error with a differing round, or the
    hash-mismatch error with the same round and a differing hash. *)
Theorem Validate_error_cases
        (m m' : M) (auxData : list Byte.byte) (e : error) :
  Validate m auxData = (m', Returns (Some e)) ->
  (length auxData <> 64 /\ e = errInvalidAuxDataLength /\ m' = m) \/
  (length auxData = 64 /\
   (OracleFails m e m' \/
    exists r h,
      OracleAnswers m r h m' /\
      ((e = errInvalidCreationRound /\
        big.SetBytes (firstn 32 auxData) <> r) \/
       (e = errInvalidCreationRoundBlockHash /\
        big.SetBytes (firstn 32 auxData) = r /\
        skipn 32 auxData <> slice h)))).
Proof.
  unfold Validate.
  destruct (Nat.eqb_spec (length auxData) 64) as [Hlen|Hlen]; cbn [negb].
  2:{ intros Hv. injection Hv as <- <-. left. auto. }
  intros Hv. right. split; [exact Hlen|].
  destruct (LastInitializedRound m) as [m1 [round [e1|]]] eqn:Hround.
  - injection Hv as <- <-. left. left. exists round. exact Hround.
  - destruct (BlockHashForRound m1 round) as [m2 [h [e2|]]] eqn:Hhash.
    + injection Hv as <- <-. left. right. exists m1, round, h. auto.
    + destruct round as [r|]; [|discriminate].
      right. exists r, h.
      destruct (Z.eqb_spec (big.Cmp (big.SetBytes (firstn 32 auxData)) r) 0)
        as [Er|Er]; cbn [negb] in Hv.
      * apply -> Cmp_eq in Er.
        destruct (GoBytes.Equal (skipn 32 auxData) (slice h)) eqn:Eh;
          cbn [negb] in Hv; [discriminate|].
        injection Hv as <- <-. split; [exists m1; auto|].
        right. repeat split; [exact Er|].
        intros Hh. apply <- Equal_eq in Hh. congruence.
      * injection Hv as <- <-. split; [exists m1; auto|].
        left. split; [reflexivity|].
        intros Hr. apply <- Cmp_eq in Hr. contradiction.
Qed.

End Further.

Section FurtherTwoManagers.

Context {M M' : Type} `{RoundsManager M} `{RoundsManager M'}.

(** X8. A negative round loses its sign in [Create]: for
    [-2^256 < r < 0] the output is the encoding of [-r] followed by the
    hash, with a nil error, and [Validate] rejects that output with the
    round-mismatch error even when the rounds manager still answers
    [(r, h)]. *)
Theorem Create_negative_round
        (c c' : M) (v v' : M') (r : Z) (h : array32) :
  (- 2 ^ 256 < r < 0)%Z ->
  OracleAnswers c r h c' ->
  OracleAnswers v r h v' ->
  Create c = (c', Returns (BigEndian32 (- r) ++ slice h, None)) /\
  Validate v (BigEndian32 (- r) ++ slice h) =
  (v', Returns (Some errInvalidCreationRound)).
Proof.
  intros Hr Hc Hv. split.
  - rewrite (Create_answers c c' r h Hc), <- Bytes_opp.
    rewrite LeftPadBytes_round by lia. reflexivity.
  - apply Validate_round_mismatch with (r := r) (h := h).
    + apply encoding_length.
    + exact Hv.
    + rewrite SetBytes_encoding by lia. lia.
Qed.

(** X9. What [Validate] makes of the output of [Create] when the rounds
    manager's answers may have changed in between: created at round
    [0 <= r < 2^256] with hash [h] and validated at round [r'] with hash
    [h'], the output is rejected with the round-mismatch error when
    [r <> r'], with the hash-mismatch error when [r = r'] and the hashes
    differ, and accepted when both are the same. *)
Theorem Validate_after_Create
        (c c' : M) (v v' : M') (r r' : Z) (h h' : array32) :
  (0 <= r < 2 ^ 256)%Z ->
  OracleAnswers c r h c' ->
  OracleAnswers v r' h' v' ->
  exists auxData,
    Create c = (c', Returns (auxData, None)) /\
    (r <> r' ->
     Validate v auxData = (v', Returns (Some errInvalidCreationRound))) /\
    (r = r' -> slice h <> slice h' ->
     Validate v auxData =
     (v', Returns (Some errInvalidCreationRoundBlockHash))) /\
    (r = r' -> slice h = slice h' ->
     Validate v auxData = (v', Returns None)).
Proof.
  intros Hr Hc Hv. exists (BigEndian32 r ++ slice h).
  pose proof (encoding_length r h) as Hlen.
  pose proof (SetBytes_encoding r (slice h) Hr) as Hdec.
  split; [|split; [|split]].
  - rewrite (Create_answers c c' r h Hc), LeftPadBytes_round by exact Hr.
    reflexivity.
  - intros Hneq.
    apply Validate_round_mismatch with (r := r') (h := h'); congruence.
  - intros <- Hneq.
    apply Validate_hash_mismatch with (r := r) (h := h');
      [exact Hlen | exact Hv | exact Hdec | rewrite skipn_round; exact Hneq].
  - intros <- Heq.
    apply Validate_match with (r := r) (h := h');
      [exact Hlen | exact Hv | exact Hdec | rewrite skipn_round; exact Heq].
Qed.

(** X10. [Create] is injective on rounds in [0, 2^256): two runs that
    return the same bytes were given the same round and the same hash
    bytes. *)
Theorem Create_injective
        (c c' : M) (d d' : M') (r r' : Z) (h h' : array32) :
  (0 <= r < 2 ^ 256)%Z ->
  (0 <= r' < 2 ^ 256)%Z ->
  OracleAnswers c r h c' ->
  OracleAnswers d r' h' d' ->
  snd (Create c) = snd (Create d) ->
  r = r' /\ slice h = slice h'.
Proof.
  intros Hr Hr' Hc Hd.
  rewrite (Create_answers c c' r h Hc), (Create_answers d d' r' h' Hd).
  rewrite !LeftPadBytes_round by assumption. cbn [snd].
  remember (BigEndian32 r ++ slice h) as a eqn:Ha.
  remember (BigEndian32 r' ++ slice h') as b eqn:Hb.
  intros E. injection E as E. subst a b.
  split.
  - rewrite <- (SetBytes_encoding r (slice h) Hr).
    rewrite <- (SetBytes_encoding r' (slice h') Hr'). now rewrite E.
  - rewrite <- (skipn_round r (slice h)), <- (skipn_round r' (slice h')).
    now rewrite E.
Qed.

End FurtherTwoManagers.

(** ** The further properties on the rounds managers of the tests *)

Lemma Validate_accepts_only_encoding_witness :
  Validate (testRounds 5 testBlkHash) (BigEndian32 5 ++ slice testBlkHash) =
  (testRounds 5 testBlkHash, Returns None).
Proof.
  apply (Validate_accepts_only_encoding
           (testRounds 5 testBlkHash) (testRounds 5 testBlkHash)
           5 testBlkHash (BigEndian32 5 ++ slice testBlkHash)).
  - exists (testRounds 5 testBlkHash). split; reflexivity.
  - split; [split; [discriminate|reflexivity]|reflexivity].
Defined.

Lemma Validate_rejects_out_of_range_round_witness :
  Validate (testRounds (-1) testBlkHash) testAuxData =
  (testRounds (-1) testBlkHash, Returns (Some errInvalidCreationRound)) /\
  Validate (testRounds (2 ^ 256) testBlkHash) testAuxData =
  (testRounds (2 ^ 256) testBlkHash, Returns (Some errInvalidCreationRound)).
Proof.
  split.
  - apply (Validate_rejects_out_of_range_round
             (testRounds (-1) testBlkHash) (testRounds (-1) testBlkHash)
             (-1) testBlkHash testAuxData).
    + reflexivity.
    + exists (testRounds (-1) testBlkHash). split; reflexivity.
    + left. reflexivity.
  - apply (Validate_rejects_out_of_range_round
             (testRounds (2 ^ 256) testBlkHash)
             (testRounds (2 ^ 256) testBlkHash)
             (2 ^ 256) testBlkHash testAuxData).
    + reflexivity.
    + exists (testRounds (2 ^ 256) testBlkHash). split; reflexivity.
    + right. apply Z.le_refl.
Defined.

Lemma Create_negative_round_witness :
  Create (testRounds (-5) testBlkHash) =
  (testRounds (-5) testBlkHash,
   Returns (BigEndian32 (- (-5)) ++ slice testBlkHash, None)) /\
  Validate (testRounds (-5) testBlkHash)
           (BigEndian32 (- (-5)) ++ slice testBlkHash) =
  (testRounds (-5) testBlkHash, Returns (Some errInvalidCreationRound)).
Proof.
  apply (Create_negative_round
           (testRounds (-5) testBlkHash) (testRounds (-5) testBlkHash)
           (testRounds (-5) testBlkHash) (testRounds (-5) testBlkHash)
           (-5) testBlkHash).
  - split; reflexivity.
  - exists (testRounds (-5) testBlkHash). split; reflexivity.
  - exists (testRounds (-5) testBlkHash). split; reflexivity.
Defined.

Lemma Validate_after_Create_witness :
  exists auxData,
    Create (testRounds 5 testBlkHash) =
    (testRounds 5 testBlkHash, Returns (auxData, None)) /\
    Validate (testRounds 6 testBlkHash) auxData =
    (testRounds 6 testBlkHash, Returns (Some errInvalidCreationRound)).
Proof.
  destruct (Validate_after_Create
              (testRounds 5 testBlkHash) (testRounds 5 testBlkHash)
              (testRounds 6 testBlkHash) (testRounds 6 testBlkHash)
              5 6 testBlkHash testBlkHash)
    as (auxData & HC & Hround & _).
  - split; [discriminate|reflexivity].
  - exists (testRounds 5 testBlkHash). split; reflexivity.
  - exists (testRounds 6 testBlkHash). split; reflexivity.
  - exists auxData. split; [exact HC|]. apply Hround. discriminate.
Defined.

Lemma Create_returns_witness :
  (exists e, @None error = Some e /\ testAuxData = [] /\
             OracleFails (testRounds 5 testBlkHash) e
                         (testRounds 5 testBlkHash)) \/
  (@None error = None /\ 64 <= length testAuxData /\
   exists r h, OracleAnswers (testRounds 5 testBlkHash) r h
                             (testRounds 5 testBlkHash) /\
               (length testAuxData = 64 <-> (- 2 ^ 256 < r < 2 ^ 256)%Z)).
Proof.
  apply (Create_returns (testRounds 5 testBlkHash) (testRounds 5 testBlkHash)
                        testAuxData None).
  reflexivity.
Defined.

Lemma Validate_error_cases_witness :
  (length testAuxData <> 64 /\
   errInvalidCreationRound = errInvalidAuxDataLength /\
   testRounds 2 testBlkHash = testRounds 2 testBlkHash) \/
  (length testAuxData = 64 /\
   (OracleFails (testRounds 2 testBlkHash) errInvalidCreationRound
                (testRounds 2 testBlkHash) \/
    exists r h,
      OracleAnswers (testRounds 2 testBlkHash) r h (testRounds 2 testBlkHash) /\
      ((errInvalidCreationRound = errInvalidCreationRound /\
        big.SetBytes (firstn 32 testAuxData) <> r) \/
       (errInvalidCreationRound = errInvalidCreationRoundBlockHash /\
        big.SetBytes (firstn 32 testAuxData) = r /\
        skipn 32 testAuxData <> slice h)))).
Proof.
  apply (Validate_error_cases (testRounds 2 testBlkHash)
                              (testRounds 2 testBlkHash)
                              testAuxData errInvalidCreationRound).
  reflexivity.
Defined.

Lemma Create_injective_witness :
  5%Z = 5%Z /\ slice testBlkHash = slice testBlkHash.
Proof.
  apply (Create_injective
           (testRounds 5 testBlkHash) (testRounds 5 testBlkHash)
           {| target := testRounds 5 testBlkHash; Calls := [] |}
           {| target := testRounds 5 testBlkHash;
              Calls := [Call_LastInitializedRound;
                        Call_BlockHashForRound (Some 5%Z)] |}
           5 5 testBlkHash testBlkHash).
  - split; [discriminate|reflexivity].
  - split; [discriminate|reflexivity].
  - exists (testRounds 5 testBlkHash). split; reflexivity.
  - exists {| target := testRounds 5 testBlkHash;
              Calls := [Call_LastInitializedRound] |}.
    split; reflexivity.
  - reflexivity.
Defined.

Lemma panics_iff_nil_round_witness :
  let nilRound :=
    {| static_round := (None, None); static_hash := (emptyBlkHash, None) |} in
  Create nilRound = (nilRound, Panics) /\
  Validate nilRound testAuxData = (nilRound, Panics) /\
  Validate nilRound [] <> (nilRound, Panics).
Proof.
  intros nilRound.
  destruct (panics_iff_nil_round nilRound nilRound testAuxData) as [HC HV].
  destruct (panics_iff_nil_round nilRound nilRound []) as [_ HE].
  split; [|split].
  - apply HC. exists nilRound, emptyBlkHash. split; reflexivity.
  - apply HV. split; [reflexivity|].
    exists nilRound, emptyBlkHash. split; reflexivity.
  - intros Hp. apply HE in Hp. destruct Hp as [Hlen _]. discriminate Hlen.
Defined.
